(** * The SMO facade ([smo/api.py]): a shallow embedding

    The class [SMO] binds the Silver Mountain Operator core ([smo.smo],
    [smo.smo_rv], [background.bg_mask], [background.bg_rv]) with a rank check
    and a default saturation mask.  The facade is embedded method by method in
    a small state-and-exception monad whose state holds the object ([self])
    and the list of calls made to the core and to the distributions.  The core
    functions are not part of [api.py]; the facade is generic in them (type
    classes [smo.Core] and [background.Core]).

    Numbers: an item of an array is a [float64], a rational or NaN, and
    numpy's comparisons and [max] treat NaN as numpy does.  Infinities are
    ordered like any other number and add no case; rounding is outside the
    model.  Scalars ([sigma], threshold probabilities, cutoffs) are
    rationals. *)

From Stdlib Require Import List ZArith QArith Qabs Bool Lia PeanoNat.
Import ListNotations.

(** ** Exceptions and results *)

Inductive exn : Type :=
| ValueError_dimension (image_ndim smo_ndim : nat)
    (* api.py:45  "Dimension of input image is {image.ndim}, while this SMO
       was constructed for dimension {self.ndim}." *)
| ValueError_zero_size
    (* numpy: "zero-size array to reduction operation maximum which has no
       identity" *)
| CoreError (code : nat).
    (* whatever a core function raises *)

Inductive result (A : Type) : Type :=
| Ok (a : A)
| Raise (e : exn).

Arguments Ok {A} a.
Arguments Raise {A} e.

Definition result_map {A B : Type} (f : A -> B) (r : result A) : result B :=
  match r with
  | Ok a => Ok (f a)
  | Raise e => Raise e
  end.

Definition result_bind {A B : Type} (r : result A) (f : A -> result B)
  : result B :=
  match r with
  | Ok a => f a
  | Raise e => Raise e
  end.

(** ** numpy arrays *)

(** An item of a float array. *)
Inductive float64 : Type :=
| Num (q : Q)
| NaN.

Definition is_nan (x : float64) : bool :=
  match x with
  | Num _ => false
  | NaN => true
  end.

(** [x >= y] on items: false as soon as one of them is NaN. *)
Definition ge_bool (x y : float64) : bool :=
  match x, y with
  | Num p, Num q => Qle_bool q p
  | _, _ => false
  end.

(** [x <= t] for an item and a scalar: false on NaN. *)
Definition le_scalar (x : float64) (t : Q) : bool :=
  match x with
  | Num p => Qle_bool p t
  | NaN => false
  end.

(** Order and equality of items as propositions; none holds of NaN. *)
Definition float_le (x y : float64) : Prop :=
  match x, y with
  | Num p, Num q => p <= q
  | _, _ => False
  end.

Definition float_lt (x y : float64) : Prop :=
  match x, y with
  | Num p, Num q => p < q
  | _, _ => False
  end.

Definition float_eq (x y : float64) : Prop :=
  match x, y with
  | Num p, Num q => p == q
  | _, _ => False
  end.

(** An n-dimensional array: its shape and its items in row-major order. *)
Record ndarray : Type := { shape : list nat; items : list float64 }.

Definition nan_free (a : ndarray) : bool :=
  forallb (fun v => negb (is_nan v)) (items a).

(** [numpy.ma.MaskedArray]: [.data] and [.mask] ([true] = excluded).
    [numpy.ma.nomask] is the all-[false] mask. *)
Record MaskedArray : Type := { data : ndarray; mask : list bool }.

(** The argument type [np.ndarray | np.ma.MaskedArray]; the constructor is what
    [isinstance(image, np.ma.MaskedArray)] tests. *)
Inductive input : Type :=
| Plain (a : ndarray)
| Masked (m : MaskedArray).

Definition input_ndim (image : input) : nat :=
  match image with
  | Plain a => length (shape a)
  | Masked m => length (shape (data m))
  end.

Definition extent (s : list nat) : nat := fold_right Nat.mul 1%nat s.

(** Arrays that numpy can build: as many items as the shape says, one mask bit
    per item. *)
Definition wf_ndarray (a : ndarray) : bool :=
  (length (items a) =? extent (shape a))%nat.

Definition wf_masked (m : MaskedArray) : bool :=
  wf_ndarray (data m) && (length (mask m) =? length (items (data m)))%nat.

Definition wf_input (image : input) : bool :=
  match image with
  | Plain a => wf_ndarray a
  | Masked m => wf_masked m
  end.

Definition Qmaximum (x y : Q) : Q := if Qle_bool x y then y else x.

(** [np.maximum]: the larger of two numbers, NaN as soon as one is NaN. *)
Definition maximum (x y : float64) : float64 :=
  match x, y with
  | Num p, Num q => Num (Qmaximum p q)
  | _, _ => NaN
  end.

(** [ndarray.max()]: the largest item, NaN when an item is NaN; raises on a
    zero-size array. *)
Definition ndarray_max (a : ndarray) : result float64 :=
  match items a with
  | [] => Raise ValueError_zero_size
  | x :: xs => Ok (fold_left maximum xs x)
  end.

(** [np.ma.masked_greater_equal(x, value)]: a copy of [x] masked where
    [x >= value]; nothing is masked when [value] is NaN. *)
Definition masked_greater_equal (x : ndarray) (value : float64)
  : MaskedArray :=
  {| data := x; mask := map (fun v => ge_bool v value) (items x) |}.

(** [MaskedArray.compressed()]: the unmasked items. *)
Fixpoint compress (xs : list float64) (ms : list bool) : list float64 :=
  match xs, ms with
  | x :: xs', m :: ms' => if m then compress xs' ms' else x :: compress xs' ms'
  | _, _ => []
  end.

Definition compressed (m : MaskedArray) : list float64 :=
  compress (items (data m)) (mask m).

Definition count_unmasked (m : MaskedArray) : nat :=
  length (filter negb (mask m)).


(** ** scipy distributions *)

(** [scipy.stats.rv_continuous] as the facade uses it: two pure queries. *)
Record rv_continuous : Type := { cdf : float64 -> float64; ppf : Q -> Q }.

(** [rv.cdf(array)]: elementwise, same shape. *)
Definition cdf_array (rv : rv_continuous) (a : ndarray) : ndarray :=
  {| shape := shape a; items := map (cdf rv) (items a) |}.

(** What every quantile function satisfies: it does not decrease on
    [0, 1]. *)
Definition ppf_monotone (rv : rv_continuous) : Prop :=
  forall p q, 0 <= p -> p <= q -> q <= 1 -> ppf rv p <= ppf rv q.

(** ** The core the facade calls into *)

Module smo.

(** [from .smo import smo, smo_rv].  A [numpy.random.Generator] is a mutable
    object: [random_state] is a reference into a store of generator states,
    and [smo_rv] returns the store it leaves behind. *)
Class Core : Type := {
  Generator : Type;
  smo : MaskedArray -> Q -> Z -> result MaskedArray;
  smo_rv : list nat -> Q -> Z -> option nat -> list Generator ->
           result rv_continuous * list Generator
}.

End smo.

Module background.

(** [from .background import bg_mask, bg_rv]. *)
Class Core : Type := {
  bg_mask : MaskedArray -> Q -> Z -> Q -> result MaskedArray;
  bg_rv : MaskedArray -> Q -> Z -> Q -> result rv_continuous
}.

End background.

(** ** The class [SMO] *)

Module SMO.

(** The attributes set by [__init__]. *)
Record t : Type := {
  sigma : Q;
  size : Z;
  ndim : nat;
  smo_rv : rv_continuous
}.

(** Calls that leave the facade: into the core, or queries of a distribution. *)
Inductive call : Type :=
| call_smo (image : MaskedArray) (sigma : Q) (size : Z)
| call_bg_mask (image : MaskedArray) (sigma : Q) (size : Z) (threshold : Q)
| call_bg_rv (image : MaskedArray) (sigma : Q) (size : Z) (threshold : Q)
| call_ppf (rv : rv_continuous) (q : Q)
| call_cdf (rv : rv_continuous) (x : ndarray).

Definition is_ppf_call (c : call) : bool :=
  match c with
  | call_ppf _ _ => true
  | _ => false
  end.

(** What a method can see and change: the object, and the calls made so far
    (oldest first). *)
Record state : Type := { self : t; calls : list call }.

(** A method body: it ends with a value or an exception, and in both cases
    leaves a state behind. *)
Definition M (A : Type) : Type := state -> result A * state.

Definition ret {A : Type} (a : A) : M A := fun st => (Ok a, st).

Definition raise {A : Type} (e : exn) : M A := fun st => (Raise e, st).

Definition bind {A B : Type} (m : M A) (f : A -> M B) : M B :=
  fun st =>
    match m st with
    | (Ok a, st') => f a st'
    | (Raise e, st') => (Raise e, st')
    end.

Notation "x <- m ;; k" := (bind m (fun x => k))
  (at level 61, m at next level, right associativity).

(** [self.<attribute>] *)
Definition attr {A : Type} (field : t -> A) : M A :=
  fun st => (Ok (field (self st)), st).

(** A numpy operation: it may raise, and touches nothing of ours. *)
Definition lift {A : Type} (r : result A) : M A := fun st => (r, st).

(** The state once further calls have been recorded. *)
Definition logged (st : state) (cs : list call) : state :=
  {| self := self st; calls := calls st ++ cs |}.

(** A call out of the facade: recorded, then its outcome. *)
Definition extern {A : Type} (c : call) (r : result A) : M A :=
  fun st => (r, logged st [c]).

(** [rv.ppf(q)] and [rv.cdf(x)]: recorded queries of a distribution. *)
Definition query_ppf (rv : rv_continuous) (q : Q) : M Q :=
  extern (call_ppf rv q) (Ok (ppf rv q)).

Definition query_cdf (rv : rv_continuous) (x : ndarray) : M ndarray :=
  extern (call_cdf rv x) (Ok (cdf_array rv x)).

(** The default of the keyword argument [threshold]. *)
Definition default_threshold : Q := 5 # 100.

Section methods.

Context {smo_core : smo.Core} {background_core : background.Core}.

(** api.py:10-37 *)
Definition __init__ (sigma : Q) (size : Z) (shape : list nat)
    (random_state : option nat) (generators : list smo.Generator)
  : result t * list smo.Generator :=
  let (rv, generators') :=
    smo.smo_rv shape sigma size random_state generators in
  (result_map
     (fun rv => {| sigma := sigma; size := size; ndim := length shape;
                   smo_rv := rv |}) rv,
   generators').

(** api.py:39-54 *)
Definition _check_image (image : input) : M MaskedArray :=
  self_ndim <- attr ndim ;;
  if negb (input_ndim image =? self_ndim)%nat then
    raise (ValueError_dimension (input_ndim image) self_ndim)
  else
    match image with
    | Masked m => ret m
    | Plain a =>
        saturation <- lift (ndarray_max a) ;;
        ret (masked_greater_equal a saturation)
    end.

(** api.py:56-69 *)
Definition smo_image (image : input) : M MaskedArray :=
  image <- _check_image image ;;
  self_sigma <- attr sigma ;;
  self_size <- attr size ;;
  extern (call_smo image self_sigma self_size)
         (smo.smo image self_sigma self_size).

(** api.py:71-87 *)
Definition smo_probability (image : input) : M MaskedArray :=
  image <- smo_image image ;;
  rv <- attr smo_rv ;;
  prob <- query_cdf rv (data image) ;;
  ret {| data := prob; mask := mask image |}.

(** api.py:89-113 *)
Definition bg_mask (image : input) (threshold : Q) : M MaskedArray :=
  image <- _check_image image ;;
  self_sigma <- attr sigma ;;
  self_size <- attr size ;;
  rv <- attr smo_rv ;;
  cutoff <- query_ppf rv threshold ;;
  extern (call_bg_mask image self_sigma self_size cutoff)
         (background.bg_mask image self_sigma self_size cutoff).

(** api.py:115-141 *)
Definition bg_rv (image : input) (threshold : Q) : M rv_continuous :=
  image <- _check_image image ;;
  self_sigma <- attr sigma ;;
  self_size <- attr size ;;
  rv <- attr smo_rv ;;
  cutoff <- query_ppf rv threshold ;;
  extern (call_bg_rv image self_sigma self_size cutoff)
         (background.bg_rv image self_sigma self_size cutoff).

(** api.py:143-165.  [self.bg_rv] is the method above, called with the image
    that [_check_image] returned. *)
Definition bg_probability (image : input) (threshold : Q) : M MaskedArray :=
  image <- _check_image image ;;
  rv <- bg_rv (Masked image) threshold ;;
  prob <- query_cdf rv (data image) ;;
  ret {| data := prob; mask := mask image |}.

End methods.

(** The five public operations, as one family. *)
Inductive operation : Type :=
| op_smo_image
| op_smo_probability
| op_bg_mask (threshold : Q)
| op_bg_rv (threshold : Q)
| op_bg_probability (threshold : Q).

(** What an operation hands back, whatever its type. *)
Inductive value : Type :=
| value_masked (m : MaskedArray)
| value_rv (rv : rv_continuous).

Definition as_masked (m : M MaskedArray) : M value :=
  fun st => let (r, st') := m st in (result_map value_masked r, st').

Definition as_rv (m : M rv_continuous) : M value :=
  fun st => let (r, st') := m st in (result_map value_rv r, st').

Definition run_operation {smo_core : smo.Core}
    {background_core : background.Core}
    (op : operation) (image : input) : M value :=
  match op with
  | op_smo_image => as_masked (smo_image image)
  | op_smo_probability => as_masked (smo_probability image)
  | op_bg_mask threshold => as_masked (bg_mask image threshold)
  | op_bg_rv threshold => as_rv (bg_rv image threshold)
  | op_bg_probability threshold => as_masked (bg_probability image threshold)
  end.

(** A caller's session on one object: operations one after the other on the
    state the previous one left, whether it returned or raised. *)
Fixpoint session {smo_core : smo.Core} {background_core : background.Core}
    (ops : list (operation * input)) (st : state) : state :=
  match ops with
  | [] => st
  | (op, image) :: rest => session rest (snd (run_operation op image st))
  end.

(** The fields the facade accepts: the configured rank and, for a plain
    array, at least one item (its maximum exists). *)
Definition valid (obj : t) (image : input) : bool :=
  (input_ndim image =? ndim obj)%nat &&
  match image with
  | Plain a => negb (length (items a) =? 0)%nat
  | Masked _ => true
  end.

(** A plain array with a NaN item gets no saturation mask; a masked array is
    not looked into. *)
Definition nan_free_if_plain (image : input) : bool :=
  match image with
  | Plain a => nan_free a
  | Masked _ => true
  end.

(** The intensities of an input, masked or not. *)
Definition input_data (image : input) : ndarray :=
  match image with
  | Plain a => a
  | Masked m => data m
  end.

(** The masked field the facade hands on for an input: a masked array
    itself, a plain array masked at and above its maximum. *)
Definition facade_field (image : input) (im : MaskedArray) : Prop :=
  match image with
  | Masked m => im = m
  | Plain a =>
      exists saturation,
        ndarray_max a = Ok saturation /\
        im = masked_greater_equal a saturation
  end.

End SMO.

(** ** The core, as the specification describes it

    [smo/smo.py] and [smo/background.py] are not among the sources.  Where a
    property is decided inside them, they are modelled from the
    specification, over the pieces it leaves open: the SMO Transform itself
    (its formula is not given), numpy's random generators and scipy's
    histogram distribution. *)

Section from_spec.

Variable G : Type.
(* numpy.random.default_rng(seed) *)
Variable default_rng : Z -> G.
(* one realization of independent noise of a given shape, and the generator
   state after the draw *)
Variable noise : G -> list nat -> ndarray * G.
(* the histogram-based continuous distribution of a sample *)
Variable rv_histogram : list float64 -> result rv_continuous.
(* the SMO Transform *)
Variable transform : MaskedArray -> Q -> Z -> result MaskedArray.

Fixpoint store_set (gs : list G) (r : nat) (g : G) : list G :=
  match gs, r with
  | [] , _ => []
  | _ :: gs', O => g :: gs'
  | g0 :: gs', S r' => g0 :: store_set gs' r' g
  end.

Definition unmasked (a : ndarray) : MaskedArray :=
  {| data := a; mask := map (fun _ => false) (items a) |}.

(** The Null Distribution of a noise field: the histogram distribution of the
    unmasked values of its SMO Transform. *)
Definition calibrate (field : ndarray) (sigma : Q) (size : Z)
  : result rv_continuous :=
  result_bind (transform (unmasked field) sigma size)
              (fun s => rv_histogram (compressed s)).

(** The generator state a construction draws from: the referenced generator
    of the store, or a fresh [default_rng(seed=42)]. *)
Definition random_source (random_state : option nat) (generators : list G)
  : option G :=
  match random_state with
  | None => Some (default_rng 42)
  | Some r => nth_error generators r
  end.

(** Modelled from the spec: [smo_rv] of [smo/smo.py] (the Null-Distribution
    Calibrator, spec 4.2): "draw one realization of an independent-noise field
    of shape S from a supplied (or default, reproducibly seeded) random
    source, apply the SMO Transform to it, and build a continuous probability
    distribution from the resulting values"; the default seed is the one the
    docstring of [SMO.__init__] documents, 42.  A supplied generator is
    advanced by the draw; the default one is created for the call. *)
Definition spec_smo_rv (shape : list nat) (sigma : Q) (size : Z)
    (random_state : option nat) (generators : list G)
  : result rv_continuous * list G :=
  match random_source random_state generators with
  | None => (Raise (CoreError 0), generators)
  | Some g =>
      let (field, g') := noise g shape in
      (calibrate field sigma size,
       match random_state with
       | None => generators
       | Some r => store_set generators r g'
       end)
  end.

(** The one-sided test of spec 4.3, position by position: a pixel stays
    excluded when the input mask or the SMO field's mask excludes it, or when
    its SMO value is not at or below the cutoff. *)
Fixpoint background_test (threshold : Q) (input_mask smo_mask : list bool)
    (smo_values : list float64) : list bool :=
  match input_mask, smo_mask, smo_values with
  | m :: ms, k :: ks, v :: vs =>
      (m || k || negb (le_scalar v threshold))
        :: background_test threshold ms ks vs
  | _, _, _ => []
  end.

(** Modelled from the spec: [bg_mask] of [smo/background.py] (spec 4.3):
    "marking pixels whose SMO value falls at or below [the cutoff]. Returns a
    new Masked Field where unmasked positions are exactly those classified as
    background; anything failing the statistical test, or already excluded by
    the input mask, remains excluded."  The threshold it receives is the
    cutoff value. *)
Definition spec_bg_mask (image : MaskedArray) (sigma : Q) (size : Z)
    (threshold : Q) : result MaskedArray :=
  result_map
    (fun s => {| data := data image;
                 mask := background_test threshold (mask image) (mask s)
                           (items (data s)) |})
    (transform image sigma size).

(** Modelled from the spec: [bg_rv] of [smo/background.py] (spec 4.3): a
    distribution "fit to the pixel intensities ... restricted to positions
    that pass the background mask test". *)
Definition spec_bg_rv (image : MaskedArray) (sigma : Q) (size : Z)
    (threshold : Q) : result rv_continuous :=
  result_bind (spec_bg_mask image sigma size threshold)
              (fun m => rv_histogram (compressed m)).

Definition spec_smo_core : smo.Core :=
  {| smo.Generator := G; smo.smo := transform; smo.smo_rv := spec_smo_rv |}.

Definition spec_background_core : background.Core :=
  {| background.bg_mask := spec_bg_mask; background.bg_rv := spec_bg_rv |}.

End from_spec.

(** ** A small concrete core, to run the facade on examples *)

Module demo.

Definition Qminimum (x y : Q) : Q := if Qle_bool x y then x else y.

Definition clip01 (x : Q) : Q := Qmaximum 0 (Qminimum 1 x).

(** A function of numbers, on items: NaN goes to NaN. *)
Definition on_numbers (f : Q -> Q) (x : float64) : float64 :=
  match x with
  | Num q => Num (f q)
  | NaN => NaN
  end.

Fixpoint numbers (xs : list float64) : list Q :=
  match xs with
  | [] => []
  | Num q :: xs' => q :: numbers xs'
  | NaN :: xs' => numbers xs'
  end.

(** The uniform distribution on [0, 4]. *)
Definition uniform : rv_continuous :=
  {| cdf := on_numbers (fun x => Qred (clip01 (x / 4)));
     ppf := fun p => 4 * p |}.

(** A one-bin histogram: uniform between the smallest and the largest
    sample. *)
Definition rv_histogram (samples : list float64) : result rv_continuous :=
  match numbers samples with
  | [] => Raise (CoreError 1)
  | x :: xs =>
      let lo := fold_left Qminimum xs x in
      let hi := fold_left Qmaximum xs x in
      Ok {| cdf := on_numbers
                     (fun v => Qred (clip01 ((v - lo) / (hi - lo))));
            ppf := fun p => lo + p * (hi - lo) |}
  end.

Definition default_rng (seed : Z) : Z := seed.

Definition noise (g : Z) (shape : list nat) : ndarray * Z :=
  ({| shape := shape;
      items := map (fun i => Num (inject_Z ((g * 7 + Z.of_nat i * 3) mod 5)))
                   (seq 0 (extent shape)) |},
   (g * 7 + 1)%Z).

(** A stand-in transform: distance to the left neighbour, scaled. *)
Fixpoint steps (prev : Q) (xs : list float64) (sigma : Q) : list float64 :=
  match xs with
  | [] => []
  | Num x :: xs' => Num (Qred (Qabs (x - prev) / sigma)) :: steps x xs' sigma
  | NaN :: xs' => NaN :: steps prev xs' sigma
  end.

Definition transform (image : MaskedArray) (sigma : Q) (size : Z)
  : result MaskedArray :=
  Ok {| data := {| shape := shape (data image);
                   items := steps 0 (items (data image)) sigma |};
        mask := mask image |}.

Definition smo_core : smo.Core :=
  spec_smo_core Z default_rng noise rv_histogram transform.

Definition background_core : background.Core :=
  spec_background_core rv_histogram transform.

(** An object for one-dimensional fields. *)
Definition obj : SMO.t :=
  {| SMO.sigma := 1; SMO.size := 3%Z; SMO.ndim := 1; SMO.smo_rv := uniform |}.

Definition st0 : SMO.state := {| SMO.self := obj; SMO.calls := [] |}.

Definition line (xs : list Q) : ndarray :=
  {| shape := [length xs]; items := map Num xs |}.

Definition field : ndarray := line [2; 3; 3; 7; 4; 4; 9; 9].

Definition masked_field : MaskedArray :=
  {| data := line [2; 3; 3; 7; 4; 4; 9; 8];
     mask := [false; false; true; false; false; false; true; false] |}.

Definition constant_field : ndarray := line [6; 6; 12 # 2].

(** [np.array([1., nan, 3.])] *)
Definition with_nan : ndarray :=
  {| shape := [3%nat]; items := [Num 1; NaN; Num 3] |}.

(** Zero-size arrays: [np.zeros((0,))] and [np.zeros((0, 3))]. *)
Definition empty : ndarray := line [].

Definition empty_rows : ndarray := {| shape := [0%nat; 3%nat]; items := [] |}.

(** An object for two-dimensional fields. *)
Definition obj2 : SMO.t :=
  {| SMO.sigma := 1; SMO.size := 3%Z; SMO.ndim := 2; SMO.smo_rv := uniform |}.

Definition st2 : SMO.state := {| SMO.self := obj2; SMO.calls := [] |}.

End demo.


(** ** Reading the recorded calls and outcomes *)

Definition is_core_call (c : SMO.call) : bool :=
  match c with
  | SMO.call_smo _ _ _ | SMO.call_bg_mask _ _ _ _ | SMO.call_bg_rv _ _ _ _ =>
      true
  | SMO.call_ppf _ _ | SMO.call_cdf _ _ => false
  end.

Definition is_cdf_call (c : SMO.call) : bool :=
  match c with
  | SMO.call_cdf _ _ => true
  | _ => false
  end.

Definition count_calls (p : SMO.call -> bool) (cs : list SMO.call) : nat :=
  length (filter p cs).

(** The [sigma] and [size] a core call was given. *)
Definition call_scales (c : SMO.call) : option (Q * Z) :=
  match c with
  | SMO.call_smo _ s z | SMO.call_bg_mask _ s z _ | SMO.call_bg_rv _ s z _ =>
      Some (s, z)
  | SMO.call_ppf _ _ | SMO.call_cdf _ _ => None
  end.

Definition uses_scales_of (obj : SMO.t) (c : SMO.call) : Prop :=
  match call_scales c with
  | Some scales => scales = (SMO.sigma obj, SMO.size obj)
  | None => True
  end.

Definition takes_threshold (op : SMO.operation) : bool :=
  match op with
  | SMO.op_smo_image | SMO.op_smo_probability => false
  | SMO.op_bg_mask _ | SMO.op_bg_rv _ | SMO.op_bg_probability _ => true
  end.

Definition is_probability (op : SMO.operation) : bool :=
  match op with
  | SMO.op_smo_probability | SMO.op_bg_probability _ => true
  | SMO.op_smo_image | SMO.op_bg_mask _ | SMO.op_bg_rv _ => false
  end.

Definition returned {A : Type} (r : result A) : bool :=
  match r with
  | Ok _ => true
  | Raise _ => false
  end.

Definition failure {A : Type} (r : result A) : option exn :=
  match r with
  | Ok _ => None
  | Raise e => Some e
  end.

(** The exception, if any, of the one core call an operation makes on the
    field [im]: [smo] for [smo_image] and [smo_probability], [bg_mask] for
    [bg_mask], [bg_rv] for [bg_rv] and [bg_probability]. *)
Definition core_failure {smo_core : smo.Core}
    {background_core : background.Core}
    (op : SMO.operation) (obj : SMO.t) (im : MaskedArray) : option exn :=
  match op with
  | SMO.op_smo_image | SMO.op_smo_probability =>
      failure (smo.smo im (SMO.sigma obj) (SMO.size obj))
  | SMO.op_bg_mask threshold =>
      failure (background.bg_mask im (SMO.sigma obj) (SMO.size obj)
                 (ppf (SMO.smo_rv obj) threshold))
  | SMO.op_bg_rv threshold | SMO.op_bg_probability threshold =>
      failure (background.bg_rv im (SMO.sigma obj) (SMO.size obj)
                 (ppf (SMO.smo_rv obj) threshold))
  end.

(** The calls an operation records on a field [im] that passed the check, in
    the order the method bodies make them. *)
Definition calls_on {smo_core : smo.Core} {background_core : background.Core}
    (op : SMO.operation) (obj : SMO.t) (im : MaskedArray) : list SMO.call :=
  let s := SMO.sigma obj in
  let z := SMO.size obj in
  let rv := SMO.smo_rv obj in
  match op with
  | SMO.op_smo_image => [SMO.call_smo im s z]
  | SMO.op_smo_probability =>
      SMO.call_smo im s z ::
      match smo.smo im s z with
      | Ok t => [SMO.call_cdf rv (data t)]
      | Raise _ => []
      end
  | SMO.op_bg_mask threshold =>
      [SMO.call_ppf rv threshold;
       SMO.call_bg_mask im s z (ppf rv threshold)]
  | SMO.op_bg_rv threshold =>
      [SMO.call_ppf rv threshold; SMO.call_bg_rv im s z (ppf rv threshold)]
  | SMO.op_bg_probability threshold =>
      SMO.call_ppf rv threshold ::
      SMO.call_bg_rv im s z (ppf rv threshold) ::
      match background.bg_rv im s z (ppf rv threshold) with
      | Ok brv => [SMO.call_cdf brv (data im)]
      | Raise _ => []
      end
  end.

(** * Properties *)

(** ** The maximum of an array *)

Lemma Qmaximum_ge_l (x y : Q) : x <= Qmaximum x y.
Proof.
  unfold Qmaximum. destruct (Qle_bool x y) eqn:E.
  - now apply Qle_bool_iff.
  - apply Qle_refl.
Qed.

Lemma Qmaximum_ge_r (x y : Q) : y <= Qmaximum x y.
Proof.
  unfold Qmaximum. destruct (Qle_bool x y) eqn:E.
  - apply Qle_refl.
  - apply Qlt_le_weak, Qnot_le_lt. intro H.
    apply Qle_bool_iff in H. congruence.
Qed.

Lemma Qmaximum_pick (x y : Q) : Qmaximum x y = x \/ Qmaximum x y = y.
Proof. unfold Qmaximum. destruct (Qle_bool x y); auto. Qed.

Lemma fold_maximum_ge_init (xs : list Q) :
  forall x, x <= fold_left Qmaximum xs x.
Proof.
  induction xs as [|y ys IH]; intro x; simpl.
  - apply Qle_refl.
  - eapply Qle_trans; [apply (Qmaximum_ge_l x y) | apply IH].
Qed.

Lemma fold_maximum_ge (xs : list Q) :
  forall x v, In v xs -> v <= fold_left Qmaximum xs x.
Proof.
  induction xs as [|y ys IH]; intros x v Hin; simpl in *.
  - contradiction.
  - destruct Hin as [<- | Hin].
    + eapply Qle_trans; [apply (Qmaximum_ge_r x y) | apply fold_maximum_ge_init].
    + now apply IH.
Qed.

Lemma fold_maximum_in (xs : list Q) :
  forall x, In (fold_left Qmaximum xs x) (x :: xs).
Proof.
  induction xs as [|y ys IH]; intro x; simpl.
  - now left.
  - destruct (IH (Qmaximum x y)) as [E | Hin].
    + rewrite <- E.
      destruct (Qmaximum_pick x y) as [P | P]; rewrite P; auto.
    + auto.
Qed.

(** Items without NaN are numbers, and their maximum is the maximum of the
    numbers. *)
Lemma nan_free_numbers (xs : list float64) :
  forallb (fun v => negb (is_nan v)) xs = true ->
  exists qs, xs = map Num qs.
Proof.
  induction xs as [|x xs IH]; simpl.
  - now exists [].
  - intro H. apply andb_true_iff in H as [Hx Hxs].
    destruct (IH Hxs) as [qs ->].
    destruct x as [q|]; [|discriminate]. now exists (q :: qs).
Qed.

Lemma has_nan (xs : list float64) :
  forallb (fun v => negb (is_nan v)) xs = false -> In NaN xs.
Proof.
  induction xs as [|x xs IH]; simpl; [discriminate|].
  destruct x as [q|]; simpl; auto.
Qed.

Lemma fold_maximum_numbers (qs : list Q) :
  forall q,
    fold_left maximum (map Num qs) (Num q) = Num (fold_left Qmaximum qs q).
Proof. induction qs as [|p qs IH]; intro q; simpl; [reflexivity | apply IH]. Qed.

(** One NaN makes the maximum NaN. *)
Lemma fold_maximum_from_nan (xs : list float64) :
  fold_left maximum xs NaN = NaN.
Proof. induction xs as [|x xs IH]; simpl; [reflexivity | exact IH]. Qed.

Lemma fold_maximum_nan (xs : list float64) :
  forall x, In NaN (x :: xs) -> fold_left maximum xs x = NaN.
Proof.
  induction xs as [|y ys IH]; intros x [E | Hin]; simpl in *.
  - now subst x.
  - contradiction.
  - subst x. apply fold_maximum_from_nan.
  - apply IH. destruct Hin as [-> | Hin].
    + left. now destruct x.
    + now right.
Qed.

Lemma ge_bool_iff (x y : float64) : ge_bool x y = true <-> float_le y x.
Proof.
  destruct x as [p|], y as [q|]; simpl;
    try (split; [discriminate | contradiction]).
  apply Qle_bool_iff.
Qed.

(** [ndarray.max()] returns exactly when the array has an item. *)
Lemma ndarray_max_defined (a : ndarray) :
  items a <> [] -> exists saturation, ndarray_max a = Ok saturation.
Proof.
  unfold ndarray_max. destruct (items a) as [|x xs]; [congruence | eauto].
Qed.

(** Without NaN the value is an item and bounds every item. *)
Lemma ndarray_max_spec (a : ndarray) :
  items a <> [] ->
  nan_free a = true ->
  exists saturation,
    ndarray_max a = Ok saturation /\
    In saturation (items a) /\
    (forall v, In v (items a) -> float_le v saturation).
Proof.
  unfold ndarray_max, nan_free. intros N F.
  destruct (nan_free_numbers _ F) as [qs E]. rewrite E.
  destruct qs as [|q qs]; [rewrite E in N; now contradiction N|]. simpl.
  rewrite fold_maximum_numbers.
  exists (Num (fold_left Qmaximum qs q)). repeat split.
  - apply (in_map Num (q :: qs)), fold_maximum_in.
  - intros v [<- | Hin].
    + simpl. apply fold_maximum_ge_init.
    + apply in_map_iff in Hin as (p & <- & Hp). simpl.
      now apply fold_maximum_ge.
Qed.

(** With a NaN the value is NaN. *)
Lemma ndarray_max_nan (a : ndarray) :
  nan_free a = false -> ndarray_max a = Ok NaN.
Proof.
  unfold ndarray_max, nan_free. intro F. pose proof (has_nan _ F) as H.
  destruct (items a) as [|x xs]; [contradiction|].
  now rewrite fold_maximum_nan.
Qed.

Lemma nth_error_mask_ge (value : float64) (xs : list float64) (i : nat)
    (b : bool) :
  nth_error (map (fun v => ge_bool v value) xs) i = Some b <->
  exists v, nth_error xs i = Some v /\ b = ge_bool v value.
Proof.
  rewrite nth_error_map. destruct (nth_error xs i) as [v|]; simpl; split.
  - intros [= <-]. now exists v.
  - now intros (w & [= <-] & ->).
  - discriminate.
  - now intros (w & [=] & _).
Qed.

(** ** [_check_image] *)

Section check_image.

Variable st : SMO.state.

Lemma check_image_mismatch (image : input) :
  input_ndim image <> SMO.ndim (SMO.self st) ->
  SMO._check_image image st =
  (Raise (ValueError_dimension (input_ndim image) (SMO.ndim (SMO.self st))),
   st).
Proof.
  intro H. apply Nat.eqb_neq in H.
  unfold SMO._check_image, SMO.bind, SMO.attr. simpl.
  now rewrite H.
Qed.

Lemma check_image_masked (m : MaskedArray) :
  input_ndim (Masked m) = SMO.ndim (SMO.self st) ->
  SMO._check_image (Masked m) st = (Ok m, st).
Proof.
  intro H. apply Nat.eqb_eq in H.
  unfold SMO._check_image, SMO.bind, SMO.attr. simpl in *.
  now rewrite H.
Qed.

Lemma check_image_plain (a : ndarray) :
  input_ndim (Plain a) = SMO.ndim (SMO.self st) ->
  SMO._check_image (Plain a) st =
  (result_map (masked_greater_equal a) (ndarray_max a), st).
Proof.
  intro H. apply Nat.eqb_eq in H.
  unfold SMO._check_image, SMO.bind, SMO.attr, SMO.lift. simpl in *.
  rewrite H. simpl. now destruct (ndarray_max a).
Qed.

(** The check only reads. *)
Lemma check_image_state (image : input) :
  snd (SMO._check_image image st) = st.
Proof.
  destruct (Nat.eq_dec (input_ndim image) (SMO.ndim (SMO.self st))) as [E | N].
  - destruct image as [a | m].
    + now rewrite check_image_plain.
    + now rewrite check_image_masked.
  - now rewrite check_image_mismatch.
Qed.

End check_image.

Lemma valid_rank (obj : SMO.t) (image : input) :
  SMO.valid obj image = true -> input_ndim image = SMO.ndim obj.
Proof.
  unfold SMO.valid. intro H. apply andb_true_iff in H as [H _].
  now apply Nat.eqb_eq.
Qed.

Lemma valid_plain_items (obj : SMO.t) (a : ndarray) :
  SMO.valid obj (Plain a) = true -> items a <> [].
Proof.
  unfold SMO.valid. intro H. apply andb_true_iff in H as [_ H].
  intro E. rewrite E in H. discriminate.
Qed.

(** A masked array is valid exactly when its rank is the configured one. *)
Lemma valid_masked (obj : SMO.t) (m : MaskedArray) :
  SMO.valid obj (Masked m) = true <-> input_ndim (Masked m) = SMO.ndim obj.
Proof.
  unfold SMO.valid. rewrite andb_true_r. apply Nat.eqb_eq.
Qed.

(** A valid field passes the check, which hands on [facade_field]. *)
Lemma check_image_valid (st : SMO.state) (image : input) :
  SMO.valid (SMO.self st) image = true ->
  exists im, SMO._check_image image st = (Ok im, st) /\ SMO.facade_field image im.
Proof.
  intro V. pose proof (valid_rank _ _ V) as R.
  destruct image as [a | m].
  - destruct (ndarray_max_defined a (valid_plain_items _ _ V)) as (s & E).
    exists (masked_greater_equal a s). split.
    + rewrite check_image_plain by exact R. now rewrite E.
    + now exists s.
  - exists m. split; [now apply check_image_masked | reflexivity].
Qed.

(** ** Sequencing *)

Lemma bind_ok {A B : Type} (m : SMO.M A) (k : A -> SMO.M B)
    (st st' : SMO.state) (a : A) :
  m st = (Ok a, st') -> SMO.bind m k st = k a st'.
Proof. unfold SMO.bind. now intros ->. Qed.

Lemma bind_raise {A B : Type} (m : SMO.M A) (k : A -> SMO.M B)
    (st st' : SMO.state) (e : exn) :
  m st = (Raise e, st') -> SMO.bind m k st = (Raise e, st').
Proof. unfold SMO.bind. now intros ->. Qed.

Lemma logged_logged (st : SMO.state) (cs ds : list SMO.call) :
  SMO.logged (SMO.logged st cs) ds = SMO.logged st (cs ++ ds).
Proof. unfold SMO.logged. simpl. now rewrite app_assoc. Qed.

(** What a successful check tells: the state is untouched, the field has the
    configured rank and the intensities of the input. *)
Lemma check_image_ok (st st' : SMO.state) (image : input) (im : MaskedArray) :
  SMO._check_image image st = (Ok im, st') ->
  st' = st /\
  input_ndim (Masked im) = SMO.ndim (SMO.self st) /\
  data im = SMO.input_data image /\
  SMO.facade_field image im.
Proof.
  intro H.
  destruct (Nat.eq_dec (input_ndim image) (SMO.ndim (SMO.self st))) as [E | N].
  - destruct image as [a | m].
    + rewrite check_image_plain in H by exact E.
      destruct (ndarray_max a) as [s|e] eqn:Emax; simpl in H; [|discriminate].
      injection H as <- <-. repeat split; auto.
      simpl. now exists s.
    + rewrite check_image_masked in H by exact E.
      injection H as <- <-. repeat split; auto.
  - rewrite check_image_mismatch in H by exact N. discriminate.
Qed.

(** ** The operations, run *)

Section runs.

Context {smo_core : smo.Core} {background_core : background.Core}.

Variable st : SMO.state.
Variable image : input.
Variable im : MaskedArray.
Hypothesis checked : SMO._check_image image st = (Ok im, st).

Local Abbreviation self_sigma := (SMO.sigma (SMO.self st)).
Local Abbreviation self_size := (SMO.size (SMO.self st)).
Local Abbreviation self_rv := (SMO.smo_rv (SMO.self st)).

Lemma smo_image_run :
  SMO.smo_image image st =
  (smo.smo im self_sigma self_size,
   SMO.logged st [SMO.call_smo im self_sigma self_size]).
Proof.
  unfold SMO.smo_image. rewrite (bind_ok _ _ _ _ _ checked). reflexivity.
Qed.

Lemma smo_probability_run :
  SMO.smo_probability image st =
  match smo.smo im self_sigma self_size with
  | Ok s =>
      (Ok {| data := cdf_array self_rv (data s); mask := mask s |},
       SMO.logged st [SMO.call_smo im self_sigma self_size;
                      SMO.call_cdf self_rv (data s)])
  | Raise e =>
      (Raise e, SMO.logged st [SMO.call_smo im self_sigma self_size])
  end.
Proof.
  unfold SMO.smo_probability, SMO.bind at 1. rewrite smo_image_run.
  destruct (smo.smo im self_sigma self_size) as [s|e]; [|reflexivity].
  unfold SMO.bind, SMO.attr, SMO.query_cdf, SMO.extern, SMO.ret.
  rewrite logged_logged. reflexivity.
Qed.

Lemma bg_mask_run (threshold : Q) :
  SMO.bg_mask image threshold st =
  (background.bg_mask im self_sigma self_size (ppf self_rv threshold),
   SMO.logged st
     [SMO.call_ppf self_rv threshold;
      SMO.call_bg_mask im self_sigma self_size (ppf self_rv threshold)]).
Proof.
  unfold SMO.bg_mask. rewrite (bind_ok _ _ _ _ _ checked).
  unfold SMO.bind, SMO.attr, SMO.query_ppf, SMO.extern.
  rewrite logged_logged. reflexivity.
Qed.

Lemma bg_rv_run (threshold : Q) :
  SMO.bg_rv image threshold st =
  (background.bg_rv im self_sigma self_size (ppf self_rv threshold),
   SMO.logged st
     [SMO.call_ppf self_rv threshold;
      SMO.call_bg_rv im self_sigma self_size (ppf self_rv threshold)]).
Proof.
  unfold SMO.bg_rv. rewrite (bind_ok _ _ _ _ _ checked).
  unfold SMO.bind, SMO.attr, SMO.query_ppf, SMO.extern.
  rewrite logged_logged. reflexivity.
Qed.

End runs.

Section runs_bg_probability.

Context {background_core : background.Core}.

Variable st : SMO.state.
Variable image : input.
Variable im : MaskedArray.
Hypothesis checked : SMO._check_image image st = (Ok im, st).

Local Abbreviation self_sigma := (SMO.sigma (SMO.self st)).
Local Abbreviation self_size := (SMO.size (SMO.self st)).
Local Abbreviation self_rv := (SMO.smo_rv (SMO.self st)).

(** The inner [self.bg_rv(image, ...)] sees the checked image, which passes
    the check again; it returns what [bg_rv] returns on the input itself. *)
Lemma bg_rv_of_checked (threshold : Q) :
  SMO.bg_rv (Masked im) threshold st = SMO.bg_rv image threshold st.
Proof.
  destruct (check_image_ok _ _ _ _ checked) as (_ & R & _).
  rewrite (bg_rv_run st (Masked im) im (check_image_masked st im R)).
  now rewrite (bg_rv_run st image im checked).
Qed.

Lemma bg_probability_run (threshold : Q) :
  SMO.bg_probability image threshold st =
  match background.bg_rv im self_sigma self_size (ppf self_rv threshold) with
  | Ok rv =>
      (Ok {| data := cdf_array rv (data im); mask := mask im |},
       SMO.logged st
         [SMO.call_ppf self_rv threshold;
          SMO.call_bg_rv im self_sigma self_size (ppf self_rv threshold);
          SMO.call_cdf rv (data im)])
  | Raise e =>
      (Raise e,
       SMO.logged st
         [SMO.call_ppf self_rv threshold;
          SMO.call_bg_rv im self_sigma self_size (ppf self_rv threshold)])
  end.
Proof.
  unfold SMO.bg_probability. rewrite (bind_ok _ _ _ _ _ checked).
  unfold SMO.bind at 1. rewrite bg_rv_of_checked, (bg_rv_run st image im checked).
  destruct (background.bg_rv im self_sigma self_size (ppf self_rv threshold))
    as [rv|e]; [|reflexivity].
  unfold SMO.bind, SMO.query_cdf, SMO.extern, SMO.ret.
  rewrite logged_logged. reflexivity.
Qed.

End runs_bg_probability.

(** ** When the check raises *)

Lemma check_image_cases (st : SMO.state) (image : input) :
  (exists im, SMO._check_image image st = (Ok im, st)) \/
  (exists e, SMO._check_image image st = (Raise e, st)).
Proof.
  pose proof (check_image_state st image) as S.
  destruct (SMO._check_image image st) as [[im|e] st'] eqn:E;
    simpl in S; subst st'; eauto.
Qed.

(** The outcome of the check is a function of the object and the input. *)
Lemma check_image_self (st st' : SMO.state) (image : input) :
  SMO.self st = SMO.self st' ->
  fst (SMO._check_image image st) = fst (SMO._check_image image st').
Proof.
  intro E. unfold SMO._check_image, SMO.bind, SMO.attr, SMO.raise, SMO.lift,
    SMO.ret. simpl. rewrite E.
  destruct (negb (input_ndim image =? SMO.ndim (SMO.self st'))%nat);
    [reflexivity|].
  destruct image as [a | m]; [|reflexivity].
  now destruct (ndarray_max a).
Qed.

Section raises.

Context {smo_core : smo.Core} {background_core : background.Core}.

Variable st : SMO.state.
Variable image : input.
Variable e : exn.
Hypothesis refused : SMO._check_image image st = (Raise e, st).

Lemma smo_image_refused : SMO.smo_image image st = (Raise e, st).
Proof. unfold SMO.smo_image. now rewrite (bind_raise _ _ _ _ _ refused). Qed.

Lemma smo_probability_refused : SMO.smo_probability image st = (Raise e, st).
Proof.
  unfold SMO.smo_probability.
  now rewrite (bind_raise _ _ _ _ _ smo_image_refused).
Qed.

Lemma bg_mask_refused (threshold : Q) :
  SMO.bg_mask image threshold st = (Raise e, st).
Proof. unfold SMO.bg_mask. now rewrite (bind_raise _ _ _ _ _ refused). Qed.

Lemma bg_rv_refused (threshold : Q) :
  SMO.bg_rv image threshold st = (Raise e, st).
Proof. unfold SMO.bg_rv. now rewrite (bind_raise _ _ _ _ _ refused). Qed.

Lemma bg_probability_refused (threshold : Q) :
  SMO.bg_probability image threshold st = (Raise e, st).
Proof.
  unfold SMO.bg_probability. now rewrite (bind_raise _ _ _ _ _ refused).
Qed.

Lemma run_operation_refused (op : SMO.operation) :
  SMO.run_operation op image st = (Raise e, st).
Proof.
  destruct op; simpl; unfold SMO.as_masked, SMO.as_rv.
  - now rewrite smo_image_refused.
  - now rewrite smo_probability_refused.
  - now rewrite bg_mask_refused.
  - now rewrite bg_rv_refused.
  - now rewrite bg_probability_refused.
Qed.

End raises.

(** No operation assigns to the object. *)
Lemma run_operation_self {smo_core : smo.Core}
    {background_core : background.Core}
    (op : SMO.operation) (image : input) (st : SMO.state) :
  SMO.self (snd (SMO.run_operation op image st)) = SMO.self st.
Proof.
  destruct (check_image_cases st image) as [[im H] | [e H]].
  - destruct op; simpl; unfold SMO.as_masked, SMO.as_rv.
    + now rewrite (smo_image_run st image im H).
    + rewrite (smo_probability_run st image im H).
      now destruct (smo.smo im _ _).
    + now rewrite (bg_mask_run st image im H).
    + now rewrite (bg_rv_run st image im H).
    + rewrite (bg_probability_run st image im H).
      now destruct (background.bg_rv im _ _ _).
  - now rewrite (run_operation_refused st image e H).
Qed.

(** The value of [smo_probability] is a function of the object and the
    input: the calls recorded so far do not enter it. *)
Lemma smo_probability_value {smo_core : smo.Core}
    (st : SMO.state) (image : input) :
  fst (SMO.smo_probability image st) =
  result_bind (fst (SMO._check_image image st))
    (fun im =>
       result_map
         (fun s => {| data := cdf_array (SMO.smo_rv (SMO.self st)) (data s);
                      mask := mask s |})
         (smo.smo im (SMO.sigma (SMO.self st)) (SMO.size (SMO.self st)))).
Proof.
  destruct (check_image_cases st image) as [[im H] | [e H]].
  - rewrite (smo_probability_run st image im H), H. simpl.
    now destruct (smo.smo im _ _).
  - now rewrite (smo_probability_refused st image e H), H.
Qed.

(** ** Masks that exclude everything *)



(** ** The facade on small inputs *)

Example check_image_field :
  SMO._check_image (Plain demo.field) demo.st0 =
  (Ok {| data := demo.field;
         mask := [false; false; false; false; false; false; true; true] |},
   demo.st0).
Proof. reflexivity. Qed.

Example check_image_masked_field :
  SMO._check_image (Masked demo.masked_field) demo.st0 =
  (Ok demo.masked_field, demo.st0).
Proof. reflexivity. Qed.

Example check_image_wrong_rank :
  SMO._check_image (Plain demo.field) demo.st2 =
  (Raise (ValueError_dimension 1 2), demo.st2).
Proof. reflexivity. Qed.

Example smo_probability_field :
  fst (@SMO.smo_probability demo.smo_core (Plain demo.field) demo.st0) =
  Ok {| data := demo.line [1 # 2; 1 # 4; 0; 1; 3 # 4; 0; 1; 0];
        mask := [false; false; false; false; false; false; true; true] |}.
Proof. vm_compute. reflexivity. Qed.

Example bg_mask_field :
  fst (@SMO.bg_mask demo.background_core (Plain demo.field) (1 # 2)
         demo.st0) =
  Ok {| data := demo.field;
        mask := [false; false; false; true; true; false; true; true] |}.
Proof. vm_compute. reflexivity. Qed.

Example bg_probability_calls :
  map SMO.is_ppf_call
    (SMO.calls
       (snd (@SMO.bg_probability demo.background_core (Plain demo.field)
               (1 # 2) demo.st0))) =
  [true; false; false].
Proof. vm_compute. reflexivity. Qed.

(** A supplied generator is advanced by a construction, the store is
    otherwise untouched; without [random_state] the store is not touched at
    all. *)
Example init_advances_generator :
  snd (@SMO.__init__ demo.smo_core 1 3 [6%nat] (Some 1%nat) [7%Z; 5%Z]) =
    [7%Z; 36%Z] /\
  snd (@SMO.__init__ demo.smo_core 1 3 [6%nat] None [7%Z; 5%Z]) =
    [7%Z; 5%Z].
Proof. split; vm_compute; reflexivity. Qed.

(** * The claims *)

(** C1 (amended).  For every input field whose rank is the configured rank
    and which, if it is a plain array, has at least one item,
    [smo_probability] returns the Null Distribution's CDF applied elementwise
    to the SMO Transform of the field (the core's [smo] of the masked field
    the facade hands on), under the mask of that SMO image; it raises only
    what the core's transform raises. *)
Theorem smo_probability_is_cdf_of_smo {smo_core : smo.Core}
    (st : SMO.state) (image : input) :
  SMO.valid (SMO.self st) image = true ->
  exists im,
    SMO._check_image image st = (Ok im, st) /\
    SMO.facade_field image im /\
    let rv := SMO.smo_rv (SMO.self st) in
    let transformed :=
      smo.smo im (SMO.sigma (SMO.self st)) (SMO.size (SMO.self st)) in
    fst (SMO.smo_image image st) = transformed /\
    fst (SMO.smo_probability image st) =
      result_map
        (fun s => {| data := cdf_array rv (data s); mask := mask s |})
        transformed /\
    forall s, transformed = Ok s ->
      exists out,
        fst (SMO.smo_probability image st) = Ok out /\
        mask out = mask s /\
        shape (data out) = shape (data s) /\
        forall i,
          nth_error (items (data out)) i =
          option_map (cdf rv) (nth_error (items (data s)) i).
Proof.
  intro V. destruct (check_image_valid st image V) as (im & H & F).
  exists im. split; [exact H|]. split; [exact F|]. cbv zeta.
  rewrite (smo_image_run st image im H), (smo_probability_run st image im H).
  split; [reflexivity|]. split.
  - now destruct (smo.smo im _ _).
  - intros s ->. eexists. split; [reflexivity|]. simpl.
    repeat split. intro i. apply nth_error_map.
Qed.

Lemma smo_probability_is_cdf_of_smo_witness :
  exists im s out,
    SMO._check_image (Plain demo.field) demo.st0 = (Ok im, demo.st0) /\
    demo.transform im 1 3 = Ok s /\
    fst (@SMO.smo_probability demo.smo_core (Plain demo.field) demo.st0) =
      Ok out /\
    mask out = mask s.
Proof.
  destruct (@smo_probability_is_cdf_of_smo demo.smo_core demo.st0
              (Plain demo.field) eq_refl) as (im & H & _ & _ & _ & R).
  destruct (R _ eq_refl) as (out & O & M & _).
  exists im. eexists. exists out. split; [exact H|].
  split; [reflexivity|]. split; [exact O | exact M].
Defined.

(** C1, as stated, fails on a zero-size plain array of the configured rank:
    [image.max()] raises inside the check and [smo_probability] returns
    nothing. *)
Lemma smo_probability_zero_size_raises :
  wf_input (Plain demo.empty) = true /\
  input_ndim (Plain demo.empty) = SMO.ndim (SMO.self demo.st0) /\
  @SMO.smo_probability demo.smo_core (Plain demo.empty) demo.st0 =
    (Raise ValueError_zero_size, demo.st0) /\
  ~ (exists out st',
       @SMO.smo_probability demo.smo_core (Plain demo.empty) demo.st0 =
       (Ok out, st')).
Proof.
  repeat split. intros (out & st' & H). discriminate H.
Qed.

(** C2 (amended).  For every plain input array of the configured rank that has
    at least one item and no NaN item, the facade derives a mask that excludes
    exactly the items at or above the array's maximum, which are exactly the
    items equal to the maximum, and passes the resulting masked field to the
    core; a masked array of the configured rank is passed on as it is. *)
Theorem check_image_masks_maximum {smo_core : smo.Core}
    (st : SMO.state) (image : input) :
  SMO.valid (SMO.self st) image = true ->
  SMO.nan_free_if_plain image = true ->
  exists im,
    SMO._check_image image st = (Ok im, st) /\
    SMO.smo_image image st =
      (smo.smo im (SMO.sigma (SMO.self st)) (SMO.size (SMO.self st)),
       SMO.logged st
         [SMO.call_smo im (SMO.sigma (SMO.self st))
                       (SMO.size (SMO.self st))]) /\
    match image with
    | Masked m => im = m
    | Plain a =>
        data im = a /\
        length (mask im) = length (items a) /\
        exists saturation,
          ndarray_max a = Ok saturation /\
          In saturation (items a) /\
          (forall v, In v (items a) -> float_le v saturation) /\
          forall i v, nth_error (items a) i = Some v ->
            (nth_error (mask im) i = Some true <-> float_le saturation v) /\
            (nth_error (mask im) i = Some false <->
             ~ float_le saturation v) /\
            (float_le saturation v <-> float_eq v saturation)
    end.
Proof.
  intros V F. pose proof (valid_rank _ _ V) as R.
  destruct image as [a | m].
  - destruct (ndarray_max_spec a (valid_plain_items _ _ V) F)
      as (s & E & Hin & Hmax).
    assert (H : SMO._check_image (Plain a) st =
                (Ok (masked_greater_equal a s), st)).
    { rewrite check_image_plain by exact R. now rewrite E. }
    exists (masked_greater_equal a s). split; [exact H|].
    split; [apply (smo_image_run st _ _ H)|].
    split; [reflexivity|]. split; [apply length_map|].
    exists s. split; [exact E|]. split; [exact Hin|]. split; [exact Hmax|].
    intros i v Hv.
    assert (B : forall b, nth_error (mask (masked_greater_equal a s)) i =
                          Some b <-> b = ge_bool v s).
    { intro b. unfold masked_greater_equal. simpl.
      rewrite nth_error_mask_ge. split.
      - intros (w & Hw & ->). rewrite Hv in Hw. now injection Hw as <-.
      - intros ->. now exists v. }
    split; [|split].
    + rewrite B, <- ge_bool_iff. split; congruence.
    + rewrite B, <- ge_bool_iff. split.
      * intros <-. discriminate.
      * intro N. now destruct (ge_bool v s).
    + pose proof (Hmax v (nth_error_In _ _ Hv)) as L.
      destruct v as [p|], s as [q|]; simpl in *; try contradiction.
      split.
      * intro G. now apply Qle_antisym.
      * intro Q. rewrite Q. apply Qle_refl.
  - pose proof (check_image_masked st m R) as H.
    exists m. split; [exact H|]. split; [apply (smo_image_run st _ _ H)|].
    reflexivity.
Qed.

Lemma check_image_masks_maximum_witness :
  exists im,
    SMO._check_image (Plain demo.field) demo.st0 = (Ok im, demo.st0) /\
    data im = demo.field /\
    length (mask im) = length (items demo.field).
Proof.
  destruct (@check_image_masks_maximum demo.smo_core demo.st0
              (Plain demo.field) eq_refl eq_refl) as (im & H & _ & D & L & _).
  exists im. repeat split; assumption.
Defined.

(** C2, as stated, fails on two kinds of plain array of the configured rank.
    On a zero-size array [image.max()] raises: no mask is derived and nothing
    reaches the core.  On an array holding a NaN, [image.max()] is NaN and
    the derived mask excludes nothing: neither the NaN, which is the value
    [max()] returned, nor 3, the largest number. *)
Lemma check_image_zero_size_or_nan :
  (wf_input (Plain demo.empty) = true /\
   input_ndim (Plain demo.empty) = SMO.ndim (SMO.self demo.st0) /\
   SMO._check_image (Plain demo.empty) demo.st0 =
     (Raise ValueError_zero_size, demo.st0) /\
   @SMO.smo_image demo.smo_core (Plain demo.empty) demo.st0 =
     (Raise ValueError_zero_size, demo.st0) /\
   ~ (exists im,
        SMO._check_image (Plain demo.empty) demo.st0 = (Ok im, demo.st0))) /\
  (wf_input (Plain demo.with_nan) = true /\
   input_ndim (Plain demo.with_nan) = SMO.ndim (SMO.self demo.st0) /\
   ndarray_max demo.with_nan = Ok NaN /\
   SMO._check_image (Plain demo.with_nan) demo.st0 =
     (Ok {| data := demo.with_nan; mask := [false; false; false] |},
      demo.st0)).
Proof.
  split.
  - repeat split; intros [im H]; discriminate H.
  - repeat split.
Qed.

(** C3.  When the rank of the input differs from the configured rank, each of
    [smo_image], [smo_probability], [bg_mask], [bg_rv] and [bg_probability]
    raises the dimension error and leaves the state as it found it: no call
    into the core (or to a distribution) has been made, and no value is
    returned. *)
Theorem rank_mismatch_raises {smo_core : smo.Core}
    {background_core : background.Core}
    (st : SMO.state) (op : SMO.operation) (image : input) :
  input_ndim image <> SMO.ndim (SMO.self st) ->
  SMO.run_operation op image st =
  (Raise (ValueError_dimension (input_ndim image) (SMO.ndim (SMO.self st))),
   st).
Proof.
  intro N. apply run_operation_refused. now apply check_image_mismatch.
Qed.

Lemma rank_mismatch_raises_witness :
  @SMO.run_operation demo.smo_core demo.background_core
    (SMO.op_bg_probability (1 # 2)) (Plain demo.empty_rows) demo.st0 =
  (Raise (ValueError_dimension 2 1), demo.st0).
Proof.
  apply (@rank_mismatch_raises demo.smo_core demo.background_core demo.st0
           (SMO.op_bg_probability (1 # 2)) (Plain demo.empty_rows)).
  simpl. lia.
Defined.

(** C4.  For every valid field and every threshold probability (in [0, 1] or
    not), [bg_mask] and [bg_rv] query the Null Distribution's [ppf] exactly
    once, with the threshold probability, and call the core's background test
    with the resulting cutoff value as its threshold. *)
Theorem threshold_converted_once {background_core : background.Core}
    (st : SMO.state) (image : input) (threshold : Q) :
  SMO.valid (SMO.self st) image = true ->
  exists im,
    SMO._check_image image st = (Ok im, st) /\
    let self_sigma := SMO.sigma (SMO.self st) in
    let self_size := SMO.size (SMO.self st) in
    let rv := SMO.smo_rv (SMO.self st) in
    let cutoff := ppf rv threshold in
    SMO.bg_mask image threshold st =
      (background.bg_mask im self_sigma self_size cutoff,
       SMO.logged st [SMO.call_ppf rv threshold;
                      SMO.call_bg_mask im self_sigma self_size cutoff]) /\
    SMO.bg_rv image threshold st =
      (background.bg_rv im self_sigma self_size cutoff,
       SMO.logged st [SMO.call_ppf rv threshold;
                      SMO.call_bg_rv im self_sigma self_size cutoff]) /\
    length (filter SMO.is_ppf_call
              (SMO.calls (snd (SMO.bg_mask image threshold st)))) =
      S (length (filter SMO.is_ppf_call (SMO.calls st))) /\
    length (filter SMO.is_ppf_call
              (SMO.calls (snd (SMO.bg_rv image threshold st)))) =
      S (length (filter SMO.is_ppf_call (SMO.calls st))).
Proof.
  intro V. destruct (check_image_valid st image V) as (im & H & _).
  exists im. split; [exact H|]. cbv zeta.
  rewrite (bg_mask_run st image im H), (bg_rv_run st image im H).
  repeat split; simpl; rewrite filter_app, length_app; simpl; lia.
Qed.

Lemma threshold_converted_once_witness :
  exists im,
    SMO._check_image (Masked demo.masked_field) demo.st0 = (Ok im, demo.st0) /\
    SMO.calls
      (snd (@SMO.bg_mask demo.background_core (Masked demo.masked_field)
              (1 # 2) demo.st0)) =
      [SMO.call_ppf demo.uniform (1 # 2);
       SMO.call_bg_mask im 1 3 (ppf demo.uniform (1 # 2))].
Proof.
  destruct (@threshold_converted_once demo.background_core demo.st0
              (Masked demo.masked_field) (1 # 2) eq_refl)
    as (im & H & E & _).
  exists im. split; [exact H|]. cbv zeta in E. now rewrite E.
Defined.



(** C7.  [__init__] builds the calibration state from its arguments and the
    one distribution that [smo_rv] returns, and no operation changes it
    afterwards: after [smo_image], [smo_probability], [bg_mask], [bg_rv] or
    [bg_probability], and after any sequence of them, the object is the one
    before the call, whether the call returned or raised. *)
Theorem calibration_state_unchanged {smo_core : smo.Core}
    {background_core : background.Core} :
  (forall sigma size shape random_state generators,
     fst (SMO.__init__ sigma size shape random_state generators) =
     result_map
       (fun rv => {| SMO.sigma := sigma; SMO.size := size;
                     SMO.ndim := length shape; SMO.smo_rv := rv |})
       (fst (smo.smo_rv shape sigma size random_state generators))) /\
  (forall op image st,
     SMO.self (snd (SMO.run_operation op image st)) = SMO.self st) /\
  (forall ops st, SMO.self (SMO.session ops st) = SMO.self st).
Proof.
  split; [|split].
  - intros. unfold SMO.__init__. now destruct (smo.smo_rv _ _ _ _ _).
  - intros. apply run_operation_self.
  - induction ops as [|[op image] rest IH]; intro st; simpl.
    + reflexivity.
    + rewrite IH. apply run_operation_self.
Qed.

(** C9.  A second call of [smo_probability] on the same field, in the state
    the first call left, has the outcome of the first: the same data and mask,
    or the same exception; and the first call left the object as it was. *)
Theorem smo_probability_repeatable {smo_core : smo.Core}
    (st : SMO.state) (image : input) :
  let first := SMO.smo_probability image st in
  let second := SMO.smo_probability image (snd first) in
  fst second = fst first /\ SMO.self (snd first) = SMO.self st.
Proof.
  cbv zeta.
  assert (S : SMO.self (snd (SMO.smo_probability image st)) = SMO.self st).
  { destruct (check_image_cases st image) as [[im H] | [e H]].
    - rewrite (smo_probability_run st image im H).
      now destruct (smo.smo im _ _).
    - now rewrite (smo_probability_refused st image e H). }
  split; [|exact S].
  rewrite !smo_probability_value, S.
  now rewrite (check_image_self _ st image S).
Qed.




(** ** The one-sided test and its threshold *)

Lemma background_test_mono (t1 t2 : Q) :
  t1 <= t2 ->
  forall ms ks vs,
    Forall2 (fun b1 b2 : bool => b1 = false -> b2 = false)
      (background_test t1 ms ks vs) (background_test t2 ms ks vs).
Proof.
  intro L. induction ms as [|m ms IH]; intros [|k ks] [|v vs]; simpl;
    try constructor.
  - intro B. apply orb_false_iff in B as [B N].
    apply orb_false_iff in B as [-> ->]. simpl.
    apply negb_false_iff in N. apply negb_false_iff.
    destruct v as [q|]; simpl in *; [|discriminate].
    apply Qle_bool_iff. apply Qle_bool_iff in N.
    now apply Qle_trans with t1.
  - apply IH.
Qed.

Lemma unmasked_nth_mono (l1 l2 : list bool) :
  Forall2 (fun b1 b2 : bool => b1 = false -> b2 = false) l1 l2 ->
  forall i, nth_error l1 i = Some false -> nth_error l2 i = Some false.
Proof.
  induction 1 as [|b1 b2 l1 l2 Hb _ IH]; intros [|i]; simpl; try discriminate.
  - intros [= ->]. now rewrite Hb.
  - apply IH.
Qed.

Lemma unmasked_count_mono (l1 l2 : list bool) :
  Forall2 (fun b1 b2 : bool => b1 = false -> b2 = false) l1 l2 ->
  (length (filter negb l1) <= length (filter negb l2))%nat.
Proof.
  induction 1 as [|b1 b2 l1 l2 Hb _ IH]; simpl; [lia|].
  destruct b1; simpl.
  - destruct b2; simpl; lia.
  - rewrite Hb by reflexivity. simpl. lia.
Qed.

Section spec_modelled.

Variable rv_histogram : list float64 -> result rv_continuous.
Variable transform : MaskedArray -> Q -> Z -> result MaskedArray.

Local Abbreviation the_background_core :=
  (spec_background_core rv_histogram transform).

(** C8.  With the background test of the specification as the core, for every
    valid field and thresholds [0 <= p1 <= p2 <= 1] (the quantile function of
    the Null Distribution being non-decreasing there), every pixel that
    [bg_mask] leaves unmasked at [p1] is left unmasked at [p2], and the number
    of unmasked pixels at [p1] is at most that at [p2]. *)
Theorem bg_mask_threshold_monotone (st : SMO.state) (image : input)
    (p1 p2 : Q) :
  SMO.valid (SMO.self st) image = true ->
  ppf_monotone (SMO.smo_rv (SMO.self st)) ->
  0 <= p1 -> p1 <= p2 -> p2 <= 1 ->
  exists im,
    SMO._check_image image st = (Ok im, st) /\
    forall s,
      transform im (SMO.sigma (SMO.self st)) (SMO.size (SMO.self st)) = Ok s ->
      exists m1 m2,
        fst (@SMO.bg_mask the_background_core image p1 st) = Ok m1 /\
        fst (@SMO.bg_mask the_background_core image p2 st) = Ok m2 /\
        length (mask m1) = length (mask m2) /\
        (forall i, nth_error (mask m1) i = Some false ->
                   nth_error (mask m2) i = Some false) /\
        (count_unmasked m1 <= count_unmasked m2)%nat.
Proof.
  intros V Mono L0 L12 L1.
  destruct (check_image_valid st image V) as (im & H & _).
  exists im. split; [exact H|]. intros s Hs.
  rewrite !(@bg_mask_run the_background_core st image im H). simpl.
  unfold spec_bg_mask. rewrite Hs. simpl.
  do 2 eexists. split; [reflexivity|]. split; [reflexivity|].
  pose proof (background_test_mono _ _ (Mono p1 p2 L0 L12 L1)
                (mask im) (mask s) (items (data s))) as F.
  simpl. split; [|split].
  - eapply Forall2_length, F.
  - now apply unmasked_nth_mono.
  - now apply unmasked_count_mono.
Qed.

End spec_modelled.

Lemma demo_uniform_monotone : ppf_monotone demo.uniform.
Proof.
  intros p q _ L _. simpl. apply Qmult_le_l; [reflexivity | exact L].
Qed.

Lemma bg_mask_threshold_monotone_witness :
  exists m1 m2,
    fst (@SMO.bg_mask demo.background_core (Plain demo.field) (1 # 4)
           demo.st0) = Ok m1 /\
    fst (@SMO.bg_mask demo.background_core (Plain demo.field) (1 # 2)
           demo.st0) = Ok m2 /\
    (count_unmasked m1 <= count_unmasked m2)%nat /\
    count_unmasked m1 = 3%nat /\
    count_unmasked m2 = 4%nat.
Proof.
  destruct (bg_mask_threshold_monotone demo.rv_histogram demo.transform
              demo.st0 (Plain demo.field) (1 # 4) (1 # 2)
              eq_refl demo_uniform_monotone)
    as (im & H & R).
  - unfold Qle. simpl. lia.
  - unfold Qle. simpl. lia.
  - unfold Qle. simpl. lia.
  - destruct (R _ eq_refl) as (m1 & m2 & E1 & E2 & _ & _ & C).
    exists m1, m2. split; [exact E1|]. split; [exact E2|].
    split; [exact C|].
    vm_compute in E1, E2. injection E1 as <-. injection E2 as <-.
    split; reflexivity.
Defined.

(** * Further properties of the facade *)

(** ** What the check accepts *)

Lemma check_image_accepted_valid (st : SMO.state) (image : input)
    (im : MaskedArray) :
  SMO._check_image image st = (Ok im, st) ->
  SMO.valid (SMO.self st) image = true.
Proof.
  intro H. unfold SMO.valid.
  destruct (Nat.eq_dec (input_ndim image) (SMO.ndim (SMO.self st))) as [E | N].
  - rewrite (proj2 (Nat.eqb_eq _ _) E). simpl.
    destruct image as [a | m]; [|reflexivity].
    rewrite check_image_plain in H by exact E.
    unfold ndarray_max in H. now destruct (items a).
  - rewrite check_image_mismatch in H by exact N. discriminate.
Qed.

Lemma check_image_zero_size (st : SMO.state) (a : ndarray) :
  input_ndim (Plain a) = SMO.ndim (SMO.self st) ->
  items a = [] ->
  SMO._check_image (Plain a) st = (Raise ValueError_zero_size, st).
Proof.
  intros R E. rewrite check_image_plain by exact R.
  unfold ndarray_max. now rewrite E.
Qed.

(** X1.  [_check_image] returns a field exactly for the valid inputs (the
    configured rank and, for a plain array, at least one item).  It raises
    nothing but the dimension error, and that exactly when the rank differs,
    and numpy's zero-size error, and that exactly on a plain array of the
    configured rank without items. *)
Theorem check_image_accepts_exactly_valid (st : SMO.state) (image : input) :
  (SMO.valid (SMO.self st) image = true <->
   exists im, SMO._check_image image st = (Ok im, st)) /\
  (forall e, SMO._check_image image st = (Raise e, st) <->
     (input_ndim image <> SMO.ndim (SMO.self st) /\
      e = ValueError_dimension (input_ndim image) (SMO.ndim (SMO.self st))) \/
     (input_ndim image = SMO.ndim (SMO.self st) /\
      (exists a, image = Plain a /\ items a = []) /\
      e = ValueError_zero_size)).
Proof.
  split.
  - split.
    + intro V. destruct (check_image_valid st image V) as (im & H & _). eauto.
    + intros [im H]. now apply check_image_accepted_valid with im.
  - intro e.
    destruct (Nat.eq_dec (input_ndim image) (SMO.ndim (SMO.self st)))
      as [E | N].
    + split.
      * intro H. right. split; [exact E|].
        destruct image as [a | m].
        -- rewrite check_image_plain in H by exact E.
           unfold ndarray_max in H.
           destruct (items a) eqn:I; [|discriminate].
           injection H as <-. split; [|reflexivity]. now exists a.
        -- rewrite check_image_masked in H by exact E. discriminate.
      * intros [[N _] | (_ & (a & -> & I) & ->)]; [contradiction|].
        now apply check_image_zero_size.
    + rewrite check_image_mismatch by exact N. split.
      * intros [= <-]. left. now split.
      * intros [[_ ->] | [E _]]; [reflexivity | contradiction].
Qed.

(** X2.  On a plain array of the configured rank without items, every
    operation raises numpy's zero-size error and leaves the state as it was:
    nothing has been called. *)
Theorem zero_size_plain_raises {smo_core : smo.Core}
    {background_core : background.Core}
    (st : SMO.state) (op : SMO.operation) (a : ndarray) :
  input_ndim (Plain a) = SMO.ndim (SMO.self st) ->
  items a = [] ->
  SMO.run_operation op (Plain a) st = (Raise ValueError_zero_size, st).
Proof.
  intros R E. apply run_operation_refused. now apply check_image_zero_size.
Qed.

Lemma zero_size_plain_raises_witness :
  @SMO.run_operation demo.smo_core demo.background_core
    (SMO.op_bg_mask (1 # 2)) (Plain demo.empty_rows) demo.st2 =
  (Raise ValueError_zero_size, demo.st2).
Proof.
  apply (@zero_size_plain_raises demo.smo_core demo.background_core demo.st2
           (SMO.op_bg_mask (1 # 2)) demo.empty_rows); reflexivity.
Defined.

(** ** The default mask *)

Lemma compress_map_in (f : float64 -> bool) (xs : list float64)
    (v : float64) :
  In v (compress xs (map f xs)) -> In v xs /\ f v = false.
Proof.
  induction xs as [|x xs IH]; simpl; [contradiction|].
  destruct (f x) eqn:F.
  - intro H. destruct (IH H). auto.
  - intros [<- | H]; [auto|]. destruct (IH H). auto.
Qed.

Lemma count_filter_map_le (f : float64 -> bool) (xs : list float64) :
  (length (filter negb (map f xs)) <= length xs)%nat.
Proof.
  induction xs as [|x xs IH]; simpl; [lia|].
  destruct (f x); simpl; lia.
Qed.

Lemma count_filter_map_lt (f : float64 -> bool) (xs : list float64)
    (x : float64) :
  In x xs -> f x = true ->
  (length (filter negb (map f xs)) < length xs)%nat.
Proof.
  induction xs as [|y ys IH]; simpl; [contradiction|].
  intros [-> | Hin] F.
  - rewrite F. simpl. pose proof (count_filter_map_le f ys). lia.
  - specialize (IH Hin F). destruct (f y); simpl; lia.
Qed.

Lemma count_unmasked_unmasked (a : ndarray) :
  count_unmasked (unmasked a) = length (items a).
Proof.
  unfold count_unmasked, unmasked. simpl.
  induction (items a) as [|x xs IH]; simpl; [reflexivity | now rewrite IH].
Qed.

(** Nothing is at or above NaN. *)
Lemma mask_at_nan (xs : list float64) :
  map (fun v => ge_bool v NaN) xs = map (fun _ => false) xs.
Proof. apply map_ext. now intros [q|]. Qed.

Lemma compress_none_masked (xs : list float64) :
  compress xs (map (fun _ => false) xs) = xs.
Proof. induction xs as [|x xs IH]; simpl; [reflexivity | now rewrite IH]. Qed.

Lemma plain_check_excludes (st : SMO.state) (a : ndarray) :
  SMO.valid (SMO.self st) (Plain a) = true ->
  nan_free a = true ->
  exists im saturation,
    SMO._check_image (Plain a) st = (Ok im, st) /\
    ndarray_max a = Ok saturation /\
    (exists i, nth_error (items a) i = Some saturation /\
               nth_error (mask im) i = Some true) /\
    (count_unmasked im < length (items a))%nat /\
    (forall v, In v (compressed im) ->
               In v (items a) /\ float_lt v saturation).
Proof.
  intros V F. pose proof (valid_rank _ _ V) as R.
  destruct (ndarray_max_spec a (valid_plain_items _ _ V) F)
    as (s & E & Hin & Hmax).
  assert (T : ge_bool s s = true).
  { apply ge_bool_iff. now apply Hmax. }
  exists (masked_greater_equal a s), s. split; [|split; [exact E|]].
  { rewrite check_image_plain by exact R. now rewrite E. }
  split; [|split].
  - destruct (In_nth_error _ _ Hin) as [i Hi]. exists i. split; [exact Hi|].
    simpl. apply nth_error_mask_ge. exists s. now split.
  - unfold count_unmasked. simpl.
    now apply count_filter_map_lt with s.
  - intros v Hv. unfold compressed in Hv. simpl in Hv.
    apply compress_map_in in Hv as [Hv B]. split; [exact Hv|].
    pose proof (Hmax v Hv) as L.
    destruct v as [p|], s as [q|]; simpl in *; try contradiction.
    apply Qnot_le_lt. intro G. apply Qle_bool_iff in G. congruence.
Qed.

Lemma plain_check_nan (st : SMO.state) (a : ndarray) :
  input_ndim (Plain a) = SMO.ndim (SMO.self st) ->
  nan_free a = false ->
  exists im,
    SMO._check_image (Plain a) st = (Ok im, st) /\
    ndarray_max a = Ok NaN /\
    data im = a /\
    count_unmasked im = length (items a) /\
    compressed im = items a.
Proof.
  intros R F. pose proof (ndarray_max_nan a F) as E.
  exists (masked_greater_equal a NaN). split; [|split; [exact E|]].
  { rewrite check_image_plain by exact R. now rewrite E. }
  unfold count_unmasked, compressed, masked_greater_equal. simpl.
  rewrite mask_at_nan. split; [reflexivity|]. split.
  - apply (count_unmasked_unmasked a).
  - apply compress_none_masked.
Qed.

(** X3.  The mask derived for a plain array that passes the check excludes at
    least one pixel, and keeps only pixels strictly below the array's
    maximum, when no item is NaN.  When an item is NaN, [image.max()] is NaN
    and the mask excludes nothing. *)
Theorem default_mask_excludes_unless_nan (st : SMO.state) (a : ndarray) :
  SMO.valid (SMO.self st) (Plain a) = true ->
  (nan_free a = true ->
   exists im saturation,
     SMO._check_image (Plain a) st = (Ok im, st) /\
     ndarray_max a = Ok saturation /\
     (exists i, nth_error (items a) i = Some saturation /\
                nth_error (mask im) i = Some true) /\
     (count_unmasked im < length (items a))%nat /\
     (forall v, In v (compressed im) ->
                In v (items a) /\ float_lt v saturation)) /\
  (nan_free a = false ->
   exists im,
     SMO._check_image (Plain a) st = (Ok im, st) /\
     ndarray_max a = Ok NaN /\
     data im = a /\
     count_unmasked im = length (items a) /\
     compressed im = items a).
Proof.
  intro V. split.
  - now apply plain_check_excludes.
  - apply plain_check_nan. now apply valid_rank.
Qed.

Lemma default_mask_excludes_unless_nan_witness :
  (exists im,
     SMO._check_image (Plain demo.field) demo.st0 = (Ok im, demo.st0) /\
     (count_unmasked im < 8)%nat) /\
  (exists im,
     SMO._check_image (Plain demo.with_nan) demo.st0 = (Ok im, demo.st0) /\
     count_unmasked im = 3%nat).
Proof.
  split.
  - destruct (default_mask_excludes_unless_nan demo.st0 demo.field eq_refl)
      as [T _].
    destruct (T eq_refl) as (im & s & H & _ & _ & C & _).
    exists im. split; [exact H | exact C].
  - destruct (default_mask_excludes_unless_nan demo.st0 demo.with_nan eq_refl)
      as [_ N].
    destruct (N eq_refl) as (im & H & _ & _ & C & _).
    exists im. split; [exact H | exact C].
Defined.

(** X4.  An array wrapped as a masked array with nothing masked is handed on
    with nothing excluded, whatever its items, even without items.  The same
    array passed plain loses at least one pixel when it has an item and no
    NaN, is refused when it has no items, and is handed on with nothing
    excluded when it holds a NaN.  The saturation mask is applied to plain
    arrays only. *)
Theorem explicit_mask_bypasses_default (st : SMO.state) (a : ndarray) :
  input_ndim (Plain a) = SMO.ndim (SMO.self st) ->
  SMO._check_image (Masked (unmasked a)) st = (Ok (unmasked a), st) /\
  count_unmasked (unmasked a) = length (items a) /\
  (items a <> [] -> nan_free a = true ->
   exists im,
     SMO._check_image (Plain a) st = (Ok im, st) /\
     data im = data (unmasked a) /\
     (count_unmasked im < count_unmasked (unmasked a))%nat) /\
  (items a = [] ->
   SMO._check_image (Plain a) st = (Raise ValueError_zero_size, st)) /\
  (nan_free a = false ->
   exists im,
     SMO._check_image (Plain a) st = (Ok im, st) /\
     data im = data (unmasked a) /\
     count_unmasked im = count_unmasked (unmasked a)).
Proof.
  intro R. split; [|split; [|split; [|split]]].
  - now apply check_image_masked.
  - apply count_unmasked_unmasked.
  - intros N F.
    assert (V : SMO.valid (SMO.self st) (Plain a) = true).
    { unfold SMO.valid. rewrite (proj2 (Nat.eqb_eq _ _) R). simpl.
      destruct (items a); [congruence | reflexivity]. }
    destruct (plain_check_excludes st a V F)
      as (im & s & H & _ & _ & C & _).
    exists im. split; [exact H|].
    destruct (check_image_ok _ _ _ _ H) as (_ & _ & D & _).
    split; [exact D|]. now rewrite count_unmasked_unmasked.
  - now apply check_image_zero_size.
  - intro F. destruct (plain_check_nan st a R F) as (im & H & _ & D & C & _).
    exists im. split; [exact H|]. split; [exact D|].
    now rewrite count_unmasked_unmasked.
Qed.

Lemma explicit_mask_bypasses_default_witness :
  SMO._check_image (Masked (unmasked demo.field)) demo.st0 =
    (Ok (unmasked demo.field), demo.st0) /\
  count_unmasked (unmasked demo.field) = 8%nat.
Proof.
  destruct (explicit_mask_bypasses_default demo.st0 demo.field eq_refl)
    as (H & C & _).
  split; [exact H | exact C].
Defined.

(** ** The operations on an accepted field *)

Section accepted.

Context {smo_core : smo.Core} {background_core : background.Core}.

Variable st : SMO.state.
Variable image : input.
Variable im : MaskedArray.
Hypothesis checked : SMO._check_image image st = (Ok im, st).

Lemma run_operation_logged (op : SMO.operation) :
  snd (SMO.run_operation op image st) =
  SMO.logged st (calls_on op (SMO.self st) im).
Proof.
  destruct op; simpl; unfold SMO.as_masked, SMO.as_rv.
  - now rewrite (smo_image_run st image im checked).
  - rewrite (smo_probability_run st image im checked).
    now destruct (smo.smo im _ _).
  - now rewrite (bg_mask_run st image im checked).
  - now rewrite (bg_rv_run st image im checked).
  - rewrite (bg_probability_run st image im checked).
    now destruct (background.bg_rv im _ _ _).
Qed.

Lemma run_operation_failure (op : SMO.operation) :
  failure (fst (SMO.run_operation op image st)) =
  core_failure op (SMO.self st) im.
Proof.
  destruct op; simpl; unfold SMO.as_masked, SMO.as_rv.
  - rewrite (smo_image_run st image im checked). simpl.
    now destruct (smo.smo im _ _).
  - rewrite (smo_probability_run st image im checked).
    now destruct (smo.smo im _ _).
  - rewrite (bg_mask_run st image im checked). simpl.
    now destruct (background.bg_mask im _ _ _).
  - rewrite (bg_rv_run st image im checked). simpl.
    now destruct (background.bg_rv im _ _ _).
  - rewrite (bg_probability_run st image im checked).
    now destruct (background.bg_rv im _ _ _).
Qed.

(** The check passes its own output. *)
Lemma check_image_again :
  SMO._check_image (Masked im) st = (Ok im, st).
Proof.
  destruct (check_image_ok _ _ _ _ checked) as (_ & R & _).
  now apply check_image_masked.
Qed.

Lemma run_operation_of_checked (op : SMO.operation) :
  SMO.run_operation op image st = SMO.run_operation op (Masked im) st.
Proof.
  pose proof check_image_again as again.
  destruct op; simpl; unfold SMO.as_masked, SMO.as_rv.
  - now rewrite (smo_image_run st image im checked),
      (smo_image_run st (Masked im) im again).
  - now rewrite (smo_probability_run st image im checked),
      (smo_probability_run st (Masked im) im again).
  - now rewrite (bg_mask_run st image im checked),
      (bg_mask_run st (Masked im) im again).
  - now rewrite (bg_rv_run st image im checked),
      (bg_rv_run st (Masked im) im again).
  - now rewrite (bg_probability_run st image im checked),
      (bg_probability_run st (Masked im) im again).
Qed.

Lemma calls_on_counts (op : SMO.operation) :
  count_calls is_core_call (calls_on op (SMO.self st) im) = 1%nat /\
  count_calls SMO.is_ppf_call (calls_on op (SMO.self st) im) =
    (if takes_threshold op then 1 else 0)%nat /\
  count_calls is_cdf_call (calls_on op (SMO.self st) im) =
    (if is_probability op && returned (fst (SMO.run_operation op image st))
     then 1 else 0)%nat.
Proof.
  destruct op; simpl; unfold SMO.as_masked, SMO.as_rv, count_calls.
  - auto.
  - rewrite (smo_probability_run st image im checked).
    now destruct (smo.smo im _ _).
  - auto.
  - auto.
  - rewrite (bg_probability_run st image im checked).
    now destruct (background.bg_rv im _ _ _).
Qed.

Lemma calls_on_scales (op : SMO.operation) :
  Forall (uses_scales_of (SMO.self st)) (calls_on op (SMO.self st) im).
Proof.
  destruct op; simpl.
  - repeat constructor.
  - destruct (smo.smo im _ _); repeat constructor.
  - repeat constructor.
  - repeat constructor.
  - destruct (background.bg_rv im _ _ _); repeat constructor.
Qed.

End accepted.

(** X5.  Every operation treats a valid input as it treats the masked field
    that the check makes of it: passing a plain array is the same, in outcome
    and in calls, as passing that array already masked at its maximum, and a
    field that passed the check passes it again unchanged. *)
Theorem operation_on_checked_field {smo_core : smo.Core}
    {background_core : background.Core}
    (st : SMO.state) (image : input) :
  SMO.valid (SMO.self st) image = true ->
  exists im,
    SMO.facade_field image im /\
    SMO._check_image (Masked im) st = (Ok im, st) /\
    forall op,
      SMO.run_operation op image st = SMO.run_operation op (Masked im) st.
Proof.
  intro V. destruct (check_image_valid st image V) as (im & H & F).
  exists im. split; [exact F|]. split.
  - now apply check_image_again with image.
  - intro op. now apply run_operation_of_checked.
Qed.

Lemma operation_on_checked_field_witness :
  @SMO.run_operation demo.smo_core demo.background_core
    (SMO.op_bg_probability (1 # 2)) (Plain demo.field) demo.st0 =
  @SMO.run_operation demo.smo_core demo.background_core
    (SMO.op_bg_probability (1 # 2))
    (Masked (masked_greater_equal demo.field (Num 9))) demo.st0.
Proof.
  destruct (@operation_on_checked_field demo.smo_core demo.background_core
              demo.st0 (Plain demo.field) eq_refl) as (im & F & _ & E).
  simpl in F. destruct F as (s & Hs & ->).
  vm_compute in Hs. injection Hs as <-. apply E.
Defined.

(** X6.  An operation only appends to the recorded calls.  It calls the core
    once when the input is valid and not at all otherwise; it queries [ppf]
    once when the input is valid and the operation takes a threshold, and not
    otherwise; it queries a [cdf] once when it is one of the two probability
    operations and returns, and not otherwise. *)
Theorem operation_call_counts {smo_core : smo.Core}
    {background_core : background.Core}
    (st : SMO.state) (op : SMO.operation) (image : input) :
  exists new,
    SMO.calls (snd (SMO.run_operation op image st)) = SMO.calls st ++ new /\
    count_calls is_core_call new =
      (if SMO.valid (SMO.self st) image then 1 else 0)%nat /\
    count_calls SMO.is_ppf_call new =
      (if SMO.valid (SMO.self st) image && takes_threshold op
       then 1 else 0)%nat /\
    count_calls is_cdf_call new =
      (if is_probability op && returned (fst (SMO.run_operation op image st))
       then 1 else 0)%nat.
Proof.
  destruct (check_image_cases st image) as [[im H] | [e H]].
  - exists (calls_on op (SMO.self st) im).
    rewrite (run_operation_logged st image im H op).
    rewrite (check_image_accepted_valid st image im H).
    destruct (calls_on_counts st image im H op) as (C1 & C2 & C3).
    repeat split; assumption.
  - exists []. rewrite (run_operation_refused st image e H op). simpl.
    assert (V : SMO.valid (SMO.self st) image = false).
    { destruct (SMO.valid (SMO.self st) image) eqn:V; [|reflexivity].
      destruct (check_image_valid st image V) as (im & H' & _). congruence. }
    rewrite V, app_nil_r, andb_false_r. repeat split.
Qed.

(** X7.  On a valid input the facade adds no failure of its own: an operation
    raises an exception exactly when its one core call, made on the field the
    check hands on, raises it. *)
Theorem operation_fails_as_core {smo_core : smo.Core}
    {background_core : background.Core}
    (st : SMO.state) (op : SMO.operation) (image : input) :
  SMO.valid (SMO.self st) image = true ->
  exists im,
    SMO.facade_field image im /\
    forall e,
      fst (SMO.run_operation op image st) = Raise e <->
      core_failure op (SMO.self st) im = Some e.
Proof.
  intro V. destruct (check_image_valid st image V) as (im & H & F).
  exists im. split; [exact F|]. intro e.
  rewrite <- (run_operation_failure st image im H op).
  destruct (fst (SMO.run_operation op image st)); simpl; split; congruence.
Qed.

Lemma operation_fails_as_core_witness :
  fst (@SMO.run_operation demo.smo_core demo.background_core
         (SMO.op_bg_rv (1 # 2)) (Plain demo.constant_field) demo.st0) =
  Raise (CoreError 1).
Proof.
  destruct (@operation_fails_as_core demo.smo_core demo.background_core
              demo.st0 (SMO.op_bg_rv (1 # 2)) (Plain demo.constant_field)
              eq_refl) as (im & F & E).
  apply E. simpl in F. destruct F as (s & Hs & ->).
  vm_compute in Hs. injection Hs as <-. vm_compute. reflexivity.
Defined.

(** X8.  Through any sequence of operations on an object, every call into the
    core is made with that object's [sigma] and [size]. *)
Theorem session_uses_own_scales {smo_core : smo.Core}
    {background_core : background.Core}
    (ops : list (SMO.operation * input)) (st : SMO.state) :
  Forall (uses_scales_of (SMO.self st)) (SMO.calls st) ->
  Forall (uses_scales_of (SMO.self st)) (SMO.calls (SMO.session ops st)).
Proof.
  revert st. induction ops as [|[op image] rest IH]; intros st Inv; simpl.
  - exact Inv.
  - pose proof (run_operation_self op image st) as S.
    rewrite <- S. apply IH. rewrite S.
    destruct (check_image_cases st image) as [[im H] | [e H]].
    + rewrite (run_operation_logged st image im H op). simpl.
      apply Forall_app. split; [exact Inv|].
      apply calls_on_scales.
    + now rewrite (run_operation_refused st image e H op).
Qed.

Lemma session_uses_own_scales_witness :
  Forall (uses_scales_of demo.obj)
    (SMO.calls
       (@SMO.session demo.smo_core demo.background_core
          [(SMO.op_bg_probability (1 # 2), Plain demo.field);
           (SMO.op_smo_image, Plain demo.empty);
           (SMO.op_smo_probability, Masked demo.masked_field)]
          demo.st0)).
Proof.
  apply (@session_uses_own_scales demo.smo_core demo.background_core
           [(SMO.op_bg_probability (1 # 2), Plain demo.field);
            (SMO.op_smo_image, Plain demo.empty);
            (SMO.op_smo_probability, Masked demo.masked_field)]
           demo.st0).
  constructor.
Defined.

(** X9.  An object that [__init__] returns for a calibration shape keeps the
    [sigma] and [size] it was given and is fixed to the rank of that shape,
    not to its extents: an input of another rank is refused by every operation
    with the dimension error naming both ranks, and a masked array of that
    rank is handed on, whatever its extents. *)
Theorem init_fixes_rank {smo_core : smo.Core}
    {background_core : background.Core}
    (sigma : Q) (size : Z) (shape : list nat) (random_state : option nat)
    (generators generators' : list smo.Generator) (obj : SMO.t) :
  SMO.__init__ sigma size shape random_state generators =
    (Ok obj, generators') ->
  SMO.sigma obj = sigma /\
  SMO.size obj = size /\
  forall (cs : list SMO.call) (image : input),
    let st := {| SMO.self := obj; SMO.calls := cs |} in
    (input_ndim image <> length shape ->
     forall op,
       SMO.run_operation op image st =
       (Raise (ValueError_dimension (input_ndim image) (length shape)), st)) /\
    (forall m, image = Masked m -> input_ndim image = length shape ->
               SMO._check_image image st = (Ok m, st)).
Proof.
  unfold SMO.__init__.
  destruct (smo.smo_rv shape sigma size random_state generators)
    as [[rv|e] gens]; simpl; [|discriminate].
  intros [= <- _]. simpl. repeat split.
  - intros N op.
    rewrite (run_operation_refused
               {| SMO.self := _; SMO.calls := cs |} image
               (ValueError_dimension (input_ndim image) (length shape)));
      [reflexivity|].
    now apply check_image_mismatch.
  - intros m -> R. now apply check_image_masked.
Qed.

Lemma init_fixes_rank_witness :
  exists obj,
    fst (@SMO.__init__ demo.smo_core 1 3 [6%nat] None []) = Ok obj /\
    SMO._check_image (Masked demo.masked_field)
      {| SMO.self := obj; SMO.calls := [] |} =
    (Ok demo.masked_field, {| SMO.self := obj; SMO.calls := [] |}).
Proof.
  destruct (@SMO.__init__ demo.smo_core 1 3 [6%nat] None [])
    as [[obj|e] gens] eqn:I; [|vm_compute in I; discriminate I].
  exists obj. split; [reflexivity|].
  destruct (@init_fixes_rank demo.smo_core demo.background_core
              1 3 [6%nat] None [] gens obj I) as (_ & _ & R).
  destruct (R [] (Masked demo.masked_field)) as (_ & A).
  apply (A demo.masked_field eq_refl eq_refl).
Defined.

(** ** Well-formed arrays *)

Lemma wf_masked_iff (m : MaskedArray) :
  wf_masked m = true <->
  length (items (data m)) = extent (shape (data m)) /\
  length (mask m) = length (items (data m)).
Proof.
  unfold wf_masked, wf_ndarray. rewrite andb_true_iff, !Nat.eqb_eq. tauto.
Qed.

Lemma wf_masked_cdf (rv : rv_continuous) (m : MaskedArray) :
  wf_masked m = true ->
  wf_masked {| data := cdf_array rv (data m); mask := mask m |} = true.
Proof.
  rewrite !wf_masked_iff. simpl. rewrite length_map. tauto.
Qed.

Lemma wf_facade_field (image : input) (im : MaskedArray) :
  wf_input image = true -> SMO.facade_field image im -> wf_masked im = true.
Proof.
  intros W F. destruct image as [a | m]; simpl in *.
  - destruct F as (s & _ & ->). apply wf_masked_iff. simpl.
    rewrite length_map. split; [|reflexivity].
    now apply Nat.eqb_eq.
  - now subst im.
Qed.

(** X10.  The facade keeps arrays well formed.  For a valid, well-formed
    input the field handed to the core is well formed (one mask bit per item,
    as many items as the shape says); what [bg_probability] returns is then
    well formed and has the shape of the input, whatever the core returned;
    and what [smo_probability] returns is well formed whenever the SMO image
    the core returned is. *)
Theorem facade_keeps_well_formed {smo_core : smo.Core}
    {background_core : background.Core}
    (st : SMO.state) (image : input) (threshold : Q) :
  SMO.valid (SMO.self st) image = true ->
  wf_input image = true ->
  exists im,
    SMO._check_image image st = (Ok im, st) /\
    wf_masked im = true /\
    (forall out,
       fst (SMO.bg_probability image threshold st) = Ok out ->
       wf_masked out = true /\
       shape (data out) = shape (SMO.input_data image)) /\
    (forall s out,
       fst (SMO.smo_image image st) = Ok s ->
       wf_masked s = true ->
       fst (SMO.smo_probability image st) = Ok out ->
       wf_masked out = true /\ shape (data out) = shape (data s)).
Proof.
  intros V W. destruct (check_image_valid st image V) as (im & H & F).
  pose proof (wf_facade_field image im W F) as Wim.
  destruct (check_image_ok _ _ _ _ H) as (_ & _ & D & _).
  exists im. split; [exact H|]. split; [exact Wim|]. split.
  - intros out. rewrite (bg_probability_run st image im H).
    destruct (background.bg_rv im _ _ _) as [rv|e]; simpl; [|discriminate].
    intros [= <-]. split; [now apply wf_masked_cdf|]. simpl. now rewrite D.
  - intros s out. rewrite (smo_image_run st image im H),
      (smo_probability_run st image im H). simpl.
    intros -> Ws [= <-]. split; [now apply wf_masked_cdf | reflexivity].
Qed.

Lemma facade_keeps_well_formed_witness :
  exists out,
    fst (@SMO.bg_probability demo.background_core (Plain demo.field) (1 # 2)
           demo.st0) = Ok out /\
    wf_masked out = true.
Proof.
  destruct (@facade_keeps_well_formed demo.smo_core demo.background_core
              demo.st0 (Plain demo.field) (1 # 2) eq_refl eq_refl)
    as (im & _ & _ & B & _).
  destruct (fst (@SMO.bg_probability demo.background_core (Plain demo.field)
                   (1 # 2) demo.st0)) as [out|e] eqn:E;
    [|vm_compute in E; discriminate E].
  exists out. split; [reflexivity|]. now destruct (B out eq_refl).
Defined.
